(** * DnDAlchemy: the recipe resolver of [alchemy.py]

    A shallow embedding of [src/alchemy.py] and the proofs of its
    specification.

    Modelling choices.
    - Element identifiers are [string]s; Python lists of them are [list string].
    - A [Recipe] instance is a Python object: the class defines no [__eq__], so
      [==], [in] and [list.remove] compare recipes by identity.  The record
      carries the object's identity ([obj_id]) next to its three attributes.
    - [get_recipe_path] is recursive without a bound of its own; the embedding
      takes the depth of the call stack as [fuel] and answers [None] when the
      stack is exhausted.  Every statement that the resolver returns a value is
      proved for all sufficiently large stacks.
    - The module globals [base_ingredients] and [recipes] are given as in the
      source; the functions that read them take them as arguments, so that they
      can also be run on other catalogs. *)

From Stdlib Require Import String List Bool Arith Lia.
Import ListNotations.

Local Open Scope string_scope.
Local Open Scope list_scope.

(** ** Data model *)

Inductive Direction : Type :=
| COMBINE
| SPLIT.

Record Recipe : Type := mkRecipe {
  obj_id : nat;
  reagents : list string;
  result : string;
  no_split : bool
}.

(** [Recipe(reagants, result, no_split=False)] allocated at address [oid]. *)
Definition new_Recipe (oid : nat) (reagants : list string) (res : string) : Recipe :=
  mkRecipe oid reagants res false.

(** Python's [x in l] on a list of strings. *)
Definition str_in (x : string) (l : list string) : bool :=
  existsb (fun y => String.eqb y x) l.

(** Python's default [==] on two [Recipe] objects: identity. *)
Definition recipe_is (a b : Recipe) : bool :=
  Nat.eqb (obj_id a) (obj_id b).

(** [previous_recipe in l]; [None] equals no recipe. *)
Definition recipe_in (previous_recipe : option Recipe) (l : list Recipe) : bool :=
  match previous_recipe with
  | None => false
  | Some p => existsb (fun r => recipe_is r p) l
  end.

(** [l.remove(p)] when [p in l]: the first element equal to [p] is dropped. *)
Fixpoint list_remove (p : Recipe) (l : list Recipe) : list Recipe :=
  match l with
  | [] => []
  | r :: rest => if recipe_is r p then rest else r :: list_remove p rest
  end.

(** ** The values of Python that [get_all_elements] handles *)

Inductive PyValue : Type :=
| PyStr (s : string)
| PyList (items : list string).

Inductive PyExc : Type :=
| TypeError.

Inductive PyResult (A : Type) : Type :=
| Returns (v : A)
| Raises (e : PyExc).

Arguments Returns {A} v.
Arguments Raises {A} e.

(** Python's binary [+] on strings and lists: [list.__add__] accepts only a
    list, [str.__add__] only a string, and neither type defines [__radd__]. *)
Definition py_add (a b : PyValue) : PyResult PyValue :=
  match a, b with
  | PyStr x, PyStr y => Returns (PyStr (x ++ y)%string)
  | PyList x, PyList y => Returns (PyList (x ++ y))
  | PyList _, PyStr _ => Raises TypeError
  | PyStr _, PyList _ => Raises TypeError
  end.

(** ** Methods of [Recipe] *)

Definition get_recipe_string (self : Recipe) (direction : Direction) : string :=
  match direction with
  | COMBINE => (String.concat " + " (reagents self) ++ " = " ++ result self)%string
  | SPLIT => (result self ++ " -> " ++ String.concat " + " (reagents self))%string
  end.

Definition get_all_elements (self : Recipe) : PyResult PyValue :=
  py_add (PyList (reagents self)) (PyStr (result self)).

Definition get_inputs (self : Recipe) (direction : Direction) : list string :=
  match direction with
  | SPLIT => [result self]
  | COMBINE => reagents self
  end.

Definition get_outputs (self : Recipe) (direction : Direction) : list string :=
  match direction with
  | SPLIT => reagents self
  | COMBINE => [result self]
  end.

Definition get_required_recipe_direction (self : Recipe) (target : string) : Direction :=
  if str_in target (reagents self) then SPLIT else COMBINE.

Definition can_make (self : Recipe) (target : string) : bool :=
  if String.eqb target (result self) && negb (str_in target (reagents self)) then true
  else if negb (String.eqb target (result self)) && str_in target (reagents self)
          && negb (no_split self) then true
  else false.

(** ** The module globals *)

Definition base_ingredients : list string :=
  [ "DF"; "CT"; "BL"; "AP";
    "OB"; "PM"; "HB"; "GL";
    "BH"; "VM"; "TF"; "ST";
    "SP"; "RL"; "MM"; "MD";
    "LS"; "IF"; "CE"; "IW";
    "FP"; "CC"; "EE"; "FR";
    "DR"; "ZW"; "SB"; "MR";
    "DW"; "KM" ].

Definition recipes : list Recipe :=
  [ new_Recipe 0 ["SI"; "WV"] "AC";
    new_Recipe 1 ["AC"; "SB"] "DB";
    new_Recipe 2 ["ZW"; "AC"] "BW";
    new_Recipe 3 ["WV"] "PW";
    new_Recipe 4 ["MR"; "MR"] "RS";
    new_Recipe 5 ["DW"; "WV"] "US";
    new_Recipe 6 ["KM"; "US"] "WE";
    new_Recipe 7 ["PW"; "RS"] "CW";
    new_Recipe 8 ["LT"; "PF"] "PF";
    new_Recipe 9 ["PF"; "FT"] "EA";
    new_Recipe 10 ["LT"; "EA"] "FE";
    new_Recipe 11 ["FP"; "IW"] "SI";
    new_Recipe 12 ["CC"] "HC";
    new_Recipe 13 ["HC"; "SI"] "AH";
    new_Recipe 14 ["EA"; "FS"] "HC";
    new_Recipe 15 ["HC"; "FS"] "PS";
    new_Recipe 16 ["FR"; "EE"] "GC";
    new_Recipe 17 ["DR"] "CS";
    new_Recipe 18 ["GC"; "CS"] "ES";
    new_Recipe 19 ["DW"] "WV";
    mkRecipe 20 ["FE"; "AH"] "RF" true;
    mkRecipe 21 ["PS"; "ES"] "RE" true;
    mkRecipe 22 ["BW"; "DB"] "RA" true;
    mkRecipe 23 ["CW"; "WE"] "RW" true ].

(** ** The resolver, over a base set and a catalog *)

(** The outcome of [get_recipe_path]: the pair [(solved, recipe_path)]. *)
Definition Outcome : Type := (bool * list string)%type.

Section Resolver.

Variable base : list string.
Variable catalog : list Recipe.

Definition is_trivial (self : Recipe) (direction : Direction) : bool :=
  match direction with
  | COMBINE => forallb (fun x => str_in x base) (reagents self)
  | SPLIT => str_in (result self) base
  end.

(** Line 178: the inputs that need a path of their own. *)
Definition needs_path (x : string) : bool := negb (str_in x base).

Definition get_valid_recipes (target : string) : list Recipe :=
  filter (fun recipe => can_make recipe target) catalog.

(** Lines 163-165: the candidate list after the previous recipe is dropped. *)
Definition recipes_to_target (target : string) (previous_recipe : option Recipe)
  : list Recipe :=
  let valid := get_valid_recipes target in
  match previous_recipe with
  | Some p => if recipe_in previous_recipe valid then list_remove p valid else valid
  | None => valid
  end.

(** Lines 177-185, the loop over the inputs of one recipe.  [call] is the
    recursive call; the result is [(solved_all_reagents, reagent_recipe_list)]
    at the end of the loop, [acc] being [reagent_recipe_list] so far. *)
Fixpoint solve_reagents (call : string -> option Recipe -> option Outcome)
    (recipe : Recipe) (inputs : list string) (acc : list string)
  : option Outcome :=
  match inputs with
  | [] => Some (true, acc)
  | reagent :: rest =>
      if negb (str_in reagent base) then
        match call reagent (Some recipe) with
        | None => None
        | Some (solved, recipe_path) =>
            if solved then solve_reagents call recipe rest (acc ++ recipe_path)
            else Some (false, acc)
        end
      else solve_reagents call recipe rest acc
  end.

(** Lines 167-190, the loop over the candidates. *)
Fixpoint try_recipes (call : string -> option Recipe -> option Outcome)
    (target : string) (candidates : list Recipe) : option Outcome :=
  match candidates with
  | [] => Some (false, [])
  | recipe :: rest =>
      let direction := get_required_recipe_direction recipe target in
      if is_trivial recipe direction then
        Some (true, [get_recipe_string recipe direction])
      else
        match solve_reagents call recipe (get_inputs recipe direction) [] with
        | None => None
        | Some (solved_all_reagents, reagent_recipe_list) =>
            if solved_all_reagents then
              Some (true, reagent_recipe_list ++ [get_recipe_string recipe direction])
            else try_recipes call target rest
        end
  end.

Fixpoint get_recipe_path (fuel : nat) (target : string)
    (previous_recipe : option Recipe) : option Outcome :=
  match fuel with
  | O => None
  | S fuel' =>
      if Nat.eqb (length (get_valid_recipes target)) 0 then Some (false, [])
      else try_recipes (get_recipe_path fuel') target
             (recipes_to_target target previous_recipe)
  end.

(** [print_recipe_path]: the lines written to standard output. *)
Definition print_recipe_path (fuel : nat) (target : string) : option (list string) :=
  match get_recipe_path fuel target None with
  | None => None
  | Some (solved, recipe_path) =>
      if solved then Some recipe_path
      else Some [("Failed to solve for " ++ target)%string]
  end.

End Resolver.

Arguments is_trivial base self direction : simpl nomatch.

(** One recursive call is at least as defined as another. *)
Definition call_le (c1 c2 : string -> option Recipe -> option Outcome) : Prop :=
  forall target previous o, c1 target previous = Some o -> c2 target previous = Some o.

(** [l1] is [l2] with some elements left out, the others in the same order. *)
Inductive subsequence {A : Type} : list A -> list A -> Prop :=
| subsequence_nil : subsequence [] []
| subsequence_skip (x : A) (l1 l2 : list A) :
    subsequence l1 l2 -> subsequence l1 (x :: l2)
| subsequence_keep (x : A) (l1 l2 : list A) :
    subsequence l1 l2 -> subsequence (x :: l1) (x :: l2).

(** ** Other catalogs *)

(** A catalog in which a candidate fails after one of its inputs was solved:
    ["X"] is made from the base element ["B"], nothing makes ["Y"] or ["Z"]. *)
Definition half_solved_catalog : list Recipe :=
  [ new_Recipe 0 ["X"; "Y"; "Z"] "T";
    new_Recipe 1 ["B"] "X" ].

(** A catalog in which ["T"] has a candidate that is not trivial and works,
    listed before a trivial one. *)
Definition detour_catalog : list Recipe :=
  [ new_Recipe 0 ["X"] "T";
    new_Recipe 1 ["B"] "X";
    new_Recipe 2 ["B"] "T" ].

(** A catalog in which a recipe is a candidate again two calls below itself:
    ["T"] is made from ["A"] and ["B"], ["A"] from ["B"], and ["B"] by
    splitting ["T"]. *)
Definition revisit_catalog : list Recipe :=
  [ new_Recipe 0 ["A"; "B"] "T";
    new_Recipe 1 ["B"] "A";
    new_Recipe 2 ["C"] "T" ].

(** The reading under which a trivial candidate wins over every deeper
    search: as soon as some candidate for the target is trivial, the answer is
    the single step of a trivial candidate. *)
Definition trivial_always_wins (base : list string) (catalog : list Recipe) : Prop :=
  forall fuel target previous_recipe recipe o,
    In recipe (recipes_to_target catalog target previous_recipe) ->
    is_trivial base recipe (get_required_recipe_direction recipe target) = true ->
    get_recipe_path base catalog fuel target previous_recipe = Some o ->
    exists winner,
      In winner (recipes_to_target catalog target previous_recipe)
      /\ is_trivial base winner (get_required_recipe_direction winner target) = true
      /\ o = (true, [get_recipe_string winner (get_required_recipe_direction winner target)]).

(** Whether the answer for [target] is the single step of the first trivial
    candidate, when there is one. *)
Definition first_trivial_answers (base : list string) (catalog : list Recipe)
    (fuel : nat) (target : string) (previous_recipe : option Recipe) : bool :=
  match find (fun r => is_trivial base r (get_required_recipe_direction r target))
             (recipes_to_target catalog target previous_recipe) with
  | None => true
  | Some r =>
      match get_recipe_path base catalog fuel target previous_recipe with
      | Some (true, [step]) =>
          String.eqb step (get_recipe_string r (get_required_recipe_direction r target))
      | _ => false
      end
  end.

(** ** The program's entry point *)

(** Lines 207-211, [sys.argv] given as [argv]: the lines written to standard
    output.  [argv[1]] is read only when [argv] has two elements. *)
Definition main (base : list string) (catalog : list Recipe) (fuel : nat)
    (argv : list string) : option (list string) :=
  if negb (Nat.eqb (length argv) 2) then Some ["Usage: alchemy.py [target element]"]
  else print_recipe_path base catalog fuel (nth 1 argv "").

(** ** Carrying out a path *)

(** One application of a recipe: the recipe and the direction it is used in. *)
Definition Step : Type := (Recipe * Direction)%type.

Definition render_step (s : Step) : string :=
  get_recipe_string (fst s) (snd s).

(** The elements at hand after the steps are carried out one after the
    other, starting with [have]: a step needs each of its inputs at hand and
    adds its outputs.  [None] when a step lacks an input. *)
Fixpoint replay (have : list string) (steps : list Step) : option (list string) :=
  match steps with
  | [] => Some have
  | s :: rest =>
      if forallb (fun x => str_in x have) (get_inputs (fst s) (snd s)) then
        replay (get_outputs (fst s) (snd s) ++ have) rest
      else None
  end.

(** A step the catalog allows: a recipe of the catalog, used in the direction
    required for an element it can make. *)
Definition allowed_step (catalog : list Recipe) (s : Step) : Prop :=
  In (fst s) catalog
  /\ exists target,
       can_make (fst s) target = true
       /\ snd s = get_required_recipe_direction (fst s) target.

(** [path] is the rendering of steps the catalog allows which, carried out
    from the base elements alone, put [target] at hand. *)
Definition crafts (base : list string) (catalog : list Recipe) (target : string)
    (path : list string) : Prop :=
  exists steps have,
    path = map render_step steps
    /\ Forall (allowed_step catalog) steps
    /\ replay base steps = Some have
    /\ In target have.

(** Two recipes that need each other: [z] is made from [p], and [p] from [z]. *)
Definition cycle_catalog (p z : string) : list Recipe :=
  [ new_Recipe 0 [p] z;
    new_Recipe 1 [z] p ].

(** ** Membership and the applicability test *)

Lemma str_in_In (x : string) (l : list string) :
  str_in x l = true <-> In x l.
Proof.
  unfold str_in. rewrite existsb_exists. split.
  - intros [y [Hy Heq]]. apply String.eqb_eq in Heq. now subst.
  - intros H. exists x. split; [assumption | apply String.eqb_refl].
Qed.

Lemma str_in_false (x : string) (l : list string) :
  str_in x l = false <-> ~ In x l.
Proof.
  rewrite <- str_in_In. destruct (str_in x l); split; intros H; congruence.
Qed.

(** C1. [can_make] holds exactly for pure forward production (the target is
    the result and is not a reagent) and for pure decomposition (the target is
    a reagent other than the result and [no_split] is off); hence a recipe
    whose result is among its own reagents can make that identifier in
    neither direction. *)
Theorem can_make_iff (self : Recipe) (target : string) :
  (can_make self target = true <->
     (target = result self /\ ~ In target (reagents self)) \/
     (target <> result self /\ In target (reagents self) /\ no_split self = false))
  /\ (In (result self) (reagents self) -> can_make self (result self) = false).
Proof.
  assert (Hiff : forall t,
    can_make self t = true <->
      (t = result self /\ ~ In t (reagents self)) \/
      (t <> result self /\ In t (reagents self) /\ no_split self = false)).
  { intros t. unfold can_make.
    destruct (String.eqb_spec t (result self)) as [Heq | Hne];
      destruct (str_in t (reagents self)) eqn:Hin; simpl.
    - apply str_in_In in Hin. split; [discriminate |].
      intros [[_ Hn] | [Hn _]]; contradiction.
    - apply str_in_false in Hin. split; [intros _; left; now split |]. reflexivity.
    - apply str_in_In in Hin. destruct (no_split self); simpl; split.
      + discriminate.
      + intros [[He _] | [_ [_ Hf]]]; [contradiction | discriminate].
      + intros _. right. repeat split; assumption.
      + reflexivity.
    - apply str_in_false in Hin. split; [discriminate |].
      intros [[He _] | [_ [Hi _]]]; contradiction. }
  split; [apply Hiff |].
  intros Hself. destruct (can_make self (result self)) eqn:Hc; [| reflexivity].
  apply Hiff in Hc. destruct Hc as [[_ Hn] | [Hn _]]; [contradiction | now elim Hn].
Qed.

(** The self-referential recipe of the catalog, [Recipe(["LT", "PF"], "PF")]. *)
Lemma can_make_iff_witness :
  In "PF" (reagents (new_Recipe 8 ["LT"; "PF"] "PF")) /\
  can_make (new_Recipe 8 ["LT"; "PF"] "PF") "PF" = false.
Proof.
  split.
  - simpl. right. left. reflexivity.
  - apply (proj2 (can_make_iff (new_Recipe 8 ["LT"; "PF"] "PF") "PF")).
    simpl. right. left. reflexivity.
Defined.

(** C9. [get_all_elements] adds a string to a list, which Python refuses with
    a [TypeError], whatever the recipe: no list of elements is ever returned. *)
Theorem get_all_elements_raises (self : Recipe) :
  get_all_elements self = Raises TypeError /\
  forall v, get_all_elements self <> Returns v.
Proof.
  unfold get_all_elements. simpl. split; [reflexivity | discriminate].
Qed.

(** ** The resolver and the depth of the stack *)

Section ResolverFacts.

Variable base : list string.
Variable catalog : list Recipe.

#[local] Abbreviation resolve := (get_recipe_path base catalog).

Lemma solve_reagents_mono c1 c2 recipe :
  call_le c1 c2 ->
  forall inputs acc o,
    solve_reagents base c1 recipe inputs acc = Some o ->
    solve_reagents base c2 recipe inputs acc = Some o.
Proof.
  intros Hle inputs. induction inputs as [| reagent rest IH]; intros acc o; simpl.
  - trivial.
  - destruct (negb (str_in reagent base)); [| apply IH].
    destruct (c1 reagent (Some recipe)) as [[solved path] |] eqn:Hc; [| discriminate].
    rewrite (Hle _ _ _ Hc). destruct solved; [apply IH | trivial].
Qed.

Lemma try_recipes_mono c1 c2 target :
  call_le c1 c2 ->
  forall candidates o,
    try_recipes base c1 target candidates = Some o ->
    try_recipes base c2 target candidates = Some o.
Proof.
  intros Hle candidates. induction candidates as [| recipe rest IH]; intros o; simpl.
  - trivial.
  - destruct (is_trivial base recipe _); [trivial |].
    destruct (solve_reagents base c1 recipe _ []) as [[solved acc] |] eqn:Hs;
      [| discriminate].
    rewrite (solve_reagents_mono c1 c2 recipe Hle _ _ _ Hs).
    destruct solved; [trivial | apply IH].
Qed.

Lemma get_recipe_path_step fuel : call_le (resolve fuel) (resolve (S fuel)).
Proof.
  induction fuel as [| fuel IH]; intros target previous o.
  - discriminate.
  - change (resolve (S fuel) target previous) with
      (if Nat.eqb (length (get_valid_recipes catalog target)) 0 then Some (false, [])
       else try_recipes base (resolve fuel) target
              (recipes_to_target catalog target previous)).
    change (resolve (S (S fuel)) target previous) with
      (if Nat.eqb (length (get_valid_recipes catalog target)) 0 then Some (false, [])
       else try_recipes base (resolve (S fuel)) target
              (recipes_to_target catalog target previous)).
    destruct (Nat.eqb _ 0); [trivial |].
    apply try_recipes_mono. exact IH.
Qed.

(** A deeper stack never changes an answer already obtained. *)
Lemma get_recipe_path_mono fuel fuel' target previous o :
  fuel <= fuel' ->
  resolve fuel target previous = Some o ->
  resolve fuel' target previous = Some o.
Proof.
  intros Hle. induction Hle as [| m _ IH]; [trivial |].
  intros H. apply get_recipe_path_step. auto.
Qed.

Lemma get_recipe_path_add k n target previous o :
  resolve k target previous = Some o ->
  resolve (k + n) target previous = Some o.
Proof. apply get_recipe_path_mono. lia. Qed.

(** ** The shape of an outcome *)

(** Whatever the recursive calls answer, the loop over the candidates ends
    with a non-empty path when it succeeds and with the empty one when not. *)
Lemma try_recipes_shape call target candidates solved path :
  try_recipes base call target candidates = Some (solved, path) ->
  if solved then path <> [] else path = [].
Proof.
  induction candidates as [| recipe rest IH]; simpl.
  - intros H. injection H as <- <-. reflexivity.
  - destruct (is_trivial base recipe _).
    + intros H. injection H as <- <-. discriminate.
    + destruct (solve_reagents base call recipe _ []) as [[ok acc] |]; [| discriminate].
      destruct ok; [| exact IH].
      intros H. injection H as <- <-. intros Habs.
      apply app_eq_nil in Habs. destruct Habs as [_ Habs]. discriminate.
Qed.

Lemma get_recipe_path_shape fuel target previous solved path :
  resolve fuel target previous = Some (solved, path) ->
  if solved then path <> [] else path = [].
Proof.
  destruct fuel as [| fuel]; simpl; [discriminate |].
  destruct (Nat.eqb _ 0).
  - intros H. injection H as <- <-. reflexivity.
  - apply try_recipes_shape.
Qed.

(** The candidates tried before a given one have all failed. *)
Lemma try_recipes_app call target before after :
  try_recipes base call target before = Some (false, []) ->
  try_recipes base call target (before ++ after) = try_recipes base call target after.
Proof.
  induction before as [| recipe rest IH]; simpl; [reflexivity |].
  destruct (is_trivial base recipe _); [discriminate |].
  destruct (solve_reagents base call recipe _ []) as [[ok acc] |]; [| discriminate].
  destruct ok; [discriminate | exact IH].
Qed.

Lemma get_recipe_path_unfold fuel target previous :
  get_valid_recipes catalog target <> [] ->
  resolve (S fuel) target previous =
  try_recipes base (resolve fuel) target (recipes_to_target catalog target previous).
Proof.
  intros Hne. simpl. destruct (get_valid_recipes catalog target); [congruence | reflexivity].
Qed.

Lemma no_valid_recipes_fails fuel target previous :
  get_valid_recipes catalog target = [] ->
  resolve (S fuel) target previous = Some (false, []).
Proof. intros H. simpl. rewrite H. reflexivity. Qed.

End ResolverFacts.

(** ** Outcomes (C8, C10) *)

(** C8. When the resolver returns, the outcome is either found, with a path
    of at least one step, or not found. *)
Theorem get_recipe_path_two_outcomes (base : list string) (catalog : list Recipe)
    (fuel : nat) (target : string) (previous_recipe : option Recipe) (o : Outcome) :
  get_recipe_path base catalog fuel target previous_recipe = Some o ->
  (exists step steps, o = (true, step :: steps)) \/ fst o = false.
Proof.
  destruct o as [solved path]. intros H.
  apply get_recipe_path_shape in H. destruct solved; [left | right; reflexivity].
  destruct path as [| step steps]; [congruence |]. now exists step, steps.
Qed.

Lemma get_recipe_path_two_outcomes_witness :
  (exists step steps,
      (true, ["FP + IW = SI"; "DW = WV"; "SI + WV = AC"]) = (true, step :: steps))
  \/ fst (true, ["FP + IW = SI"; "DW = WV"; "SI + WV = AC"]) = false.
Proof.
  apply (get_recipe_path_two_outcomes base_ingredients recipes 5 "AC" None).
  vm_compute. reflexivity.
Defined.

(** C10. When the resolver returns without a path, the pair is exactly
    [(False, [])]: the second component is a list, and it is empty.  The
    accumulator of a candidate that failed part-way is dropped: the loop goes
    on with the next candidate as if the candidate had not been tried. *)
Theorem get_recipe_path_failure_is_empty (base : list string) (catalog : list Recipe)
    (fuel : nat) (target : string) (previous_recipe : option Recipe)
    (path : list string) :
  get_recipe_path base catalog fuel target previous_recipe = Some (false, path) ->
  path = [] /\
  forall call recipe rest acc,
    is_trivial base recipe (get_required_recipe_direction recipe target) = false ->
    solve_reagents base call recipe
      (get_inputs recipe (get_required_recipe_direction recipe target)) []
      = Some (false, acc) ->
    try_recipes base call target (recipe :: rest) = try_recipes base call target rest.
Proof.
  intros H. split.
  - exact (get_recipe_path_shape _ _ _ _ _ _ _ H).
  - intros call recipe rest acc Htriv Hs. simpl. rewrite Htriv, Hs. reflexivity.
Qed.

(** On [half_solved_catalog] the only candidate for ["T"] has solved ["X"]
    (its accumulator holds ["B = X"]) when ["Y"] fails. *)
Lemma get_recipe_path_failure_is_empty_witness :
  solve_reagents ["B"] (get_recipe_path ["B"] half_solved_catalog 1)
    (new_Recipe 0 ["X"; "Y"; "Z"] "T") ["X"; "Y"; "Z"] [] = Some (false, ["B = X"]) /\
  get_recipe_path ["B"] half_solved_catalog 2 "T" None = Some (false, []) /\
  ([] : list string) = [].
Proof.
  split; [reflexivity |]. split; [reflexivity |].
  apply (get_recipe_path_failure_is_empty ["B"] half_solved_catalog 2 "T" None []).
  reflexivity.
Defined.

(** ** Targets without a candidate (C5) *)

(** C5. A target that no recipe of the catalog can make is not found, in the
    first call already and whatever the previous recipe, also when the target
    is a base element; on the program's catalog the base element ["DF"] is
    such a target and [print_recipe_path] writes the failure line. *)
Theorem no_candidate_not_found :
  (forall base catalog fuel target previous_recipe,
      get_valid_recipes catalog target = [] ->
      get_recipe_path base catalog (S fuel) target previous_recipe = Some (false, [])
      /\ print_recipe_path base catalog (S fuel) target
         = Some [("Failed to solve for " ++ target)%string])
  /\ str_in "DF" base_ingredients = true
  /\ get_valid_recipes recipes "DF" = []
  /\ forall fuel,
      get_recipe_path base_ingredients recipes (S fuel) "DF" None = Some (false, [])
      /\ print_recipe_path base_ingredients recipes (S fuel) "DF"
         = Some ["Failed to solve for DF"].
Proof.
  assert (Hgen : forall base catalog fuel target previous_recipe,
      get_valid_recipes catalog target = [] ->
      get_recipe_path base catalog (S fuel) target previous_recipe = Some (false, [])
      /\ print_recipe_path base catalog (S fuel) target
         = Some [("Failed to solve for " ++ target)%string]).
  { intros base catalog fuel target previous_recipe Hnone. split.
    - now apply no_valid_recipes_fails.
    - unfold print_recipe_path. now rewrite no_valid_recipes_fails. }
  split; [exact Hgen |]. split; [reflexivity |]. split; [reflexivity |].
  intros fuel. apply (Hgen base_ingredients recipes fuel "DF" None). reflexivity.
Qed.

(** The general part at ["DF"], with a stack of a single frame. *)
Lemma no_candidate_not_found_witness :
  get_recipe_path base_ingredients recipes 1 "DF" None = Some (false, [])
  /\ print_recipe_path base_ingredients recipes 1 "DF" = Some ["Failed to solve for DF"].
Proof.
  apply (proj1 no_candidate_not_found base_ingredients recipes 0 "DF" None).
  reflexivity.
Defined.

(** ** The program's catalog (C3, C4) *)

(** The answers of a stack of depth [k] are those of every deeper stack. *)
Lemma call_le_add (base : list string) (catalog : list Recipe) (k n : nat) :
  call_le (get_recipe_path base catalog k) (get_recipe_path base catalog (k + n)).
Proof. intros target previous o. apply get_recipe_path_add. Qed.

(** C3. On the program's catalog the candidates for ["SI"] are, in order, the
    recipes of ["AC"], ["SI"] and ["AH"].  The first is a split that is not
    trivial and fails (its input ["AC"] is not found); the second is a trivial
    combination, and the answer is the single step ["FP + IW = SI"]. *)
Theorem resolve_SI (n : nat) :
  recipes_to_target recipes "SI" None
    = [ new_Recipe 0 ["SI"; "WV"] "AC";
        new_Recipe 11 ["FP"; "IW"] "SI";
        new_Recipe 13 ["HC"; "SI"] "AH" ]
  /\ get_required_recipe_direction (new_Recipe 0 ["SI"; "WV"] "AC") "SI" = SPLIT
  /\ is_trivial base_ingredients (new_Recipe 0 ["SI"; "WV"] "AC") SPLIT = false
  /\ get_recipe_path base_ingredients recipes (2 + n) "AC"
       (Some (new_Recipe 0 ["SI"; "WV"] "AC")) = Some (false, [])
  /\ try_recipes base_ingredients (get_recipe_path base_ingredients recipes (2 + n))
       "SI" [new_Recipe 0 ["SI"; "WV"] "AC"] = Some (false, [])
  /\ get_recipe_path base_ingredients recipes (3 + n) "SI" None
       = Some (true, ["FP + IW = SI"]).
Proof.
  split; [reflexivity |]. split; [reflexivity |]. split; [reflexivity |].
  split; [| split].
  - apply get_recipe_path_add. reflexivity.
  - apply (try_recipes_mono _ _ _ _ (call_le_add base_ingredients recipes 2 n)).
    reflexivity.
  - apply get_recipe_path_add. reflexivity.
Qed.

(** C4. On the program's catalog the candidates for ["WV"] are, in order, the
    recipes of ["AC"], ["PW"], ["US"] and ["WV"].  The first three are splits
    that are not trivial; each of them returns and fails.  The fourth is the
    trivial combination, and the answer is the single step ["DW = WV"]. *)
Theorem resolve_WV (n : nat) :
  recipes_to_target recipes "WV" None
    = [ new_Recipe 0 ["SI"; "WV"] "AC";
        new_Recipe 3 ["WV"] "PW";
        new_Recipe 5 ["DW"; "WV"] "US";
        new_Recipe 19 ["DW"] "WV" ]
  /\ (forall recipe,
        In recipe [ new_Recipe 0 ["SI"; "WV"] "AC";
                    new_Recipe 3 ["WV"] "PW";
                    new_Recipe 5 ["DW"; "WV"] "US" ] ->
        get_required_recipe_direction recipe "WV" = SPLIT
        /\ is_trivial base_ingredients recipe SPLIT = false
        /\ get_recipe_path base_ingredients recipes (2 + n) (result recipe) (Some recipe)
           = Some (false, [])
        /\ try_recipes base_ingredients
             (get_recipe_path base_ingredients recipes (2 + n)) "WV" [recipe]
           = Some (false, []))
  /\ get_required_recipe_direction (new_Recipe 19 ["DW"] "WV") "WV" = COMBINE
  /\ is_trivial base_ingredients (new_Recipe 19 ["DW"] "WV") COMBINE = true
  /\ get_recipe_path base_ingredients recipes (3 + n) "WV" None
       = Some (true, ["DW = WV"]).
Proof.
  split; [reflexivity |]. split.
  - intros recipe Hin.
    assert (Hcase : recipe = new_Recipe 0 ["SI"; "WV"] "AC"
                    \/ recipe = new_Recipe 3 ["WV"] "PW"
                    \/ recipe = new_Recipe 5 ["DW"; "WV"] "US").
    { simpl in Hin. intuition auto. }
    destruct Hcase as [-> | [-> | ->]];
      (split; [reflexivity |]; split; [reflexivity |]; split;
       [ apply get_recipe_path_add; reflexivity
       | apply (try_recipes_mono _ _ _ _ (call_le_add base_ingredients recipes 2 n));
         reflexivity ]).
  - split; [reflexivity |]. split; [reflexivity |].
    apply get_recipe_path_add. reflexivity.
Qed.

Lemma resolve_WV_witness :
  get_recipe_path base_ingredients recipes 2 "PW" (Some (new_Recipe 3 ["WV"] "PW"))
    = Some (false, [])
  /\ get_recipe_path base_ingredients recipes 3 "WV" None = Some (true, ["DW = WV"]).
Proof.
  split.
  - apply (proj1 (proj2 (proj2 (proj1 (proj2 (resolve_WV 0)) (new_Recipe 3 ["WV"] "PW")
                                  (or_intror (or_introl eq_refl)))))).
  - apply (proj2 (proj2 (proj2 (proj2 (resolve_WV 0))))).
Defined.

(** ** Trivial candidates (C2) *)

Lemma try_recipes_app_found (base : list string) call target before after path :
  try_recipes base call target before = Some (true, path) ->
  try_recipes base call target (before ++ after) = Some (true, path).
Proof.
  induction before as [| recipe rest IH]; simpl; [discriminate |].
  destruct (is_trivial base recipe _); [trivial |].
  destruct (solve_reagents base call recipe _ []) as [[ok acc] |]; [| discriminate].
  destruct ok; [trivial | exact IH].
Qed.

Lemma recipes_to_target_valid (catalog : list Recipe) target previous_recipe :
  recipes_to_target catalog target previous_recipe <> [] ->
  get_valid_recipes catalog target <> [].
Proof.
  unfold recipes_to_target. intros H Hnil. rewrite Hnil in H.
  destruct previous_recipe; simpl in H; congruence.
Qed.

Lemma get_recipe_path_candidates (base : list string) (catalog : list Recipe)
    fuel target previous_recipe before recipe after :
  recipes_to_target catalog target previous_recipe = before ++ recipe :: after ->
  get_recipe_path base catalog (S fuel) target previous_recipe
  = try_recipes base (get_recipe_path base catalog fuel) target
      (before ++ recipe :: after).
Proof.
  intros Hc. rewrite get_recipe_path_unfold.
  - now rewrite Hc.
  - apply (recipes_to_target_valid catalog target previous_recipe).
    rewrite Hc. now destruct before.
Qed.

(** C2, as the code has it.  Let [recipe] be a candidate that is trivial in
    its required direction.  Once the loop is at [recipe] the answer is its
    single step, whatever the recursive calls would say and whatever follows
    it; so the resolver answers with that step when every candidate before
    [recipe] has failed.  A candidate before [recipe] that succeeds is
    answered instead. *)
Theorem trivial_candidate_returns (base : list string) (catalog : list Recipe)
    (fuel : nat) (target : string) (previous_recipe : option Recipe)
    (before : list Recipe) (recipe : Recipe) (after : list Recipe) :
  recipes_to_target catalog target previous_recipe = before ++ recipe :: after ->
  is_trivial base recipe (get_required_recipe_direction recipe target) = true ->
  (forall call,
      try_recipes base call target (recipe :: after)
      = Some (true, [get_recipe_string recipe (get_required_recipe_direction recipe target)]))
  /\ (try_recipes base (get_recipe_path base catalog fuel) target before = Some (false, []) ->
      get_recipe_path base catalog (S fuel) target previous_recipe
      = Some (true, [get_recipe_string recipe (get_required_recipe_direction recipe target)]))
  /\ (forall path,
      try_recipes base (get_recipe_path base catalog fuel) target before = Some (true, path) ->
      get_recipe_path base catalog (S fuel) target previous_recipe = Some (true, path)).
Proof.
  intros Hc Htriv.
  assert (Hhere : forall call,
    try_recipes base call target (recipe :: after)
    = Some (true, [get_recipe_string recipe (get_required_recipe_direction recipe target)])).
  { intros call. simpl. now rewrite Htriv. }
  split; [exact Hhere |]. split.
  - intros Hfail. rewrite (get_recipe_path_candidates _ _ _ _ _ _ _ _ Hc).
    rewrite try_recipes_app by exact Hfail. apply Hhere.
  - intros path Hfound. rewrite (get_recipe_path_candidates _ _ _ _ _ _ _ _ Hc).
    now apply try_recipes_app_found.
Qed.

(** On the program's catalog: ["WV"], whose trivial recipe comes fourth. *)
Lemma trivial_candidate_returns_witness :
  get_recipe_path base_ingredients recipes 3 "WV" None = Some (true, ["DW = WV"]).
Proof.
  apply (proj1 (proj2 (trivial_candidate_returns base_ingredients recipes 2 "WV" None
    [ new_Recipe 0 ["SI"; "WV"] "AC"; new_Recipe 3 ["WV"] "PW";
      new_Recipe 5 ["DW"; "WV"] "US" ]
    (new_Recipe 19 ["DW"] "WV") [] eq_refl eq_refl))).
  reflexivity.
Defined.

(** On [detour_catalog] the trivial recipe [Recipe(["B"], "T")] is a candidate
    for ["T"], and the resolver answers with the two steps of the candidate
    listed before it. *)
Lemma trivial_always_wins_fails :
  In (new_Recipe 2 ["B"] "T") (recipes_to_target detour_catalog "T" None)
  /\ is_trivial ["B"] (new_Recipe 2 ["B"] "T") COMBINE = true
  /\ get_recipe_path ["B"] detour_catalog 2 "T" None = Some (true, ["B = X"; "X = T"])
  /\ ~ trivial_always_wins ["B"] detour_catalog.
Proof.
  split; [simpl; auto |]. split; [reflexivity |]. split; [reflexivity |].
  intros Hall.
  destruct (Hall 2 "T" None (new_Recipe 2 ["B"] "T") (true, ["B = X"; "X = T"]))
    as [winner [_ [_ Heq]]].
  - simpl. auto.
  - reflexivity.
  - reflexivity.
  - discriminate Heq.
Qed.

(** The program's catalog has no target with a working candidate listed
    before a trivial one: for every identifier of the program and every
    previous recipe of the catalog, a trivial candidate, when there is one, is
    the answer. *)
Lemma first_trivial_answers_on_recipes :
  forallb (fun target =>
             forallb (first_trivial_answers base_ingredients recipes 40 target)
                     (None :: map Some recipes))
          (base_ingredients ++ flat_map (fun r => result r :: reagents r) recipes)
  = true.
Proof. vm_compute. reflexivity. Qed.

(** ** The inputs of a candidate that is not trivial (C6) *)

Section Inputs.

Variable base : list string.
Variable call : string -> option Recipe -> option Outcome.
Variable recipe : Recipe.

(** Every input that needs a path has one: the loop ends with their paths,
    one after the other in the order of the inputs. *)
Lemma solve_reagents_all (sub : string -> list string) (inputs acc : list string) :
  (forall x, In x inputs -> needs_path base x = true ->
             call x (Some recipe) = Some (true, sub x)) ->
  solve_reagents base call recipe inputs acc
  = Some (true, acc ++ flat_map sub (filter (needs_path base) inputs)).
Proof.
  revert acc. induction inputs as [| x rest IH]; intros acc Hsub; simpl.
  - now rewrite app_nil_r.
  - fold (needs_path base x). destruct (needs_path base x) eqn:Hx.
    + rewrite (Hsub x (or_introl eq_refl) Hx). simpl.
      rewrite IH by (intros y Hy; apply Hsub; now right).
      now rewrite <- app_assoc.
    + apply IH. intros y Hy. apply Hsub. now right.
Qed.

(** The first input without a path ends the loop, whatever comes after it. *)
Lemma solve_reagents_break (done : list string) (x : string) (todo acc path : list string) :
  (forall y, In y done -> needs_path base y = true ->
             exists p, call y (Some recipe) = Some (true, p)) ->
  needs_path base x = true ->
  call x (Some recipe) = Some (false, path) ->
  exists acc', solve_reagents base call recipe (done ++ x :: todo) acc = Some (false, acc').
Proof.
  revert acc. induction done as [| y rest IH]; intros acc Hdone Hx Hfail; simpl.
  - fold (needs_path base x). rewrite Hx, Hfail. now exists acc.
  - fold (needs_path base y). destruct (needs_path base y) eqn:Hy.
    + destruct (Hdone y (or_introl eq_refl) Hy) as [p Hp]. rewrite Hp.
      apply IH; auto. intros z Hz. apply Hdone. now right.
    + apply IH; auto. intros z Hz. apply Hdone. now right.
Qed.

End Inputs.

(** C6. Let [recipe] be the candidate the loop is at (those before it have
    failed), not trivial in its direction.  Its inputs are taken in order and
    base elements are passed over.  If every other input is found, the answer
    is their paths one after the other, in the order of the inputs, and then
    the step of [recipe].  If an input is not found, the inputs after it are
    not looked at and the answer is that of the remaining candidates. *)
Theorem nontrivial_candidate_inputs (base : list string) (catalog : list Recipe)
    (fuel : nat) (target : string) (previous_recipe : option Recipe)
    (before : list Recipe) (recipe : Recipe) (after : list Recipe)
    (direction : Direction) :
  recipes_to_target catalog target previous_recipe = before ++ recipe :: after ->
  try_recipes base (get_recipe_path base catalog fuel) target before = Some (false, []) ->
  direction = get_required_recipe_direction recipe target ->
  is_trivial base recipe direction = false ->
  (forall sub : string -> list string,
      (forall x, In x (get_inputs recipe direction) -> str_in x base = false ->
                 get_recipe_path base catalog fuel x (Some recipe) = Some (true, sub x)) ->
      get_recipe_path base catalog (S fuel) target previous_recipe
      = Some (true,
              flat_map sub (filter (fun x => negb (str_in x base)) (get_inputs recipe direction))
              ++ [get_recipe_string recipe direction]))
  /\ (forall done x todo path,
      get_inputs recipe direction = done ++ x :: todo ->
      (forall y, In y done -> str_in y base = false ->
                 exists p, get_recipe_path base catalog fuel y (Some recipe) = Some (true, p)) ->
      str_in x base = false ->
      get_recipe_path base catalog fuel x (Some recipe) = Some (false, path) ->
      get_recipe_path base catalog (S fuel) target previous_recipe
      = try_recipes base (get_recipe_path base catalog fuel) target after).
Proof.
  intros Hc Hbefore -> Htriv. split.
  - intros sub Hsub.
    rewrite (get_recipe_path_candidates _ _ _ _ _ _ _ _ Hc).
    rewrite try_recipes_app by exact Hbefore. simpl. rewrite Htriv.
    rewrite (solve_reagents_all base _ recipe sub).
    + reflexivity.
    + intros x Hin Hx. apply Hsub; [exact Hin |].
      unfold needs_path in Hx. now destruct (str_in x base).
  - intros done x todo path Hin Hdone Hx Hfail.
    rewrite (get_recipe_path_candidates _ _ _ _ _ _ _ _ Hc).
    rewrite try_recipes_app by exact Hbefore. simpl. rewrite Htriv, Hin.
    destruct (solve_reagents_break base (get_recipe_path base catalog fuel) recipe
                done x todo [] path) as [acc' Hacc].
    + intros y Hy Hn. apply Hdone; [exact Hy |].
      unfold needs_path in Hn. now destruct (str_in y base).
    + unfold needs_path. now rewrite Hx.
    + exact Hfail.
    + rewrite Hacc. reflexivity.
Qed.

(** ["AC"] on the program's catalog: both inputs are found.  ["T"] on
    [half_solved_catalog]: ["X"] is found, ["Y"] is not, ["Z"] is not tried. *)
Lemma nontrivial_candidate_inputs_witness :
  get_recipe_path base_ingredients recipes 4 "AC" None
    = Some (true, ["FP + IW = SI"; "DW = WV"; "SI + WV = AC"])
  /\ get_recipe_path ["B"] half_solved_catalog 2 "T" None = Some (false, []).
Proof.
  split.
  - apply (proj1 (nontrivial_candidate_inputs base_ingredients recipes 3 "AC" None
      [] (new_Recipe 0 ["SI"; "WV"] "AC")
      [ new_Recipe 1 ["AC"; "SB"] "DB"; new_Recipe 2 ["ZW"; "AC"] "BW" ] COMBINE
      eq_refl eq_refl eq_refl eq_refl)
      (fun x => if String.eqb x "SI" then ["FP + IW = SI"] else ["DW = WV"])).
    intros x Hin _. simpl in Hin. destruct Hin as [<- | [<- | []]]; reflexivity.
  - apply (proj2 (nontrivial_candidate_inputs ["B"] half_solved_catalog 1 "T" None
      [] (new_Recipe 0 ["X"; "Y"; "Z"] "T") [] COMBINE
      eq_refl eq_refl eq_refl eq_refl) ["X"] "Y" ["Z"] []).
    + reflexivity.
    + intros y Hy _. simpl in Hy. destruct Hy as [<- | []].
      exists ["B = X"]. reflexivity.
    + reflexivity.
    + reflexivity.
Defined.

(** ** The excluded recipe (C7) *)

Lemma subsequence_refl {A : Type} (l : list A) : subsequence l l.
Proof.
  induction l as [| x l IH]; [apply subsequence_nil | apply subsequence_keep, IH].
Qed.

Lemma subsequence_filter {A : Type} (f : A -> bool) (l : list A) :
  subsequence (filter f l) l.
Proof.
  induction l as [| x l IH]; simpl; [apply subsequence_nil |].
  destruct (f x); [apply subsequence_keep, IH | apply subsequence_skip, IH].
Qed.

Lemma subsequence_list_remove (p : Recipe) (l : list Recipe) :
  subsequence (list_remove p l) l.
Proof.
  induction l as [| r l IH]; simpl; [apply subsequence_nil |].
  destruct (recipe_is r p).
  - apply subsequence_skip, subsequence_refl.
  - apply subsequence_keep, IH.
Qed.

(** [list.remove] takes out the first element identical to [p], nothing else. *)
Lemma list_remove_split (p : Recipe) (l : list Recipe) :
  existsb (fun r => recipe_is r p) l = true ->
  exists l1 p' l2,
    l = l1 ++ p' :: l2 /\ list_remove p l = l1 ++ l2 /\ recipe_is p' p = true
    /\ forall r, In r l1 -> recipe_is r p = false.
Proof.
  induction l as [| r l IH]; simpl; [discriminate |].
  destruct (recipe_is r p) eqn:Hr; simpl.
  - intros _. exists [], r, l. repeat split; auto. intros r' [].
  - intros Hex. destruct (IH Hex) as [l1 [p' [l2 [Hl [Hrem [Hp Hl1]]]]]].
    exists (r :: l1), p', l2. simpl. rewrite Hl at 1. rewrite Hrem.
    repeat split; auto. intros r' [<- | Hin]; auto.
Qed.

Lemma list_remove_keeps (p r : Recipe) (l : list Recipe) :
  recipe_is r p = false -> In r l -> In r (list_remove p l).
Proof.
  intros Hr. induction l as [| x l IH]; simpl; [trivial |].
  destruct (recipe_is x p) eqn:Hx.
  - intros [<- | Hin]; [congruence | exact Hin].
  - intros [<- | Hin]; [now left | right; auto].
Qed.

(** C7. The candidates are the recipes of the catalog that can make the
    target, in the order of the catalog.  Without a previous recipe all of
    them are tried.  With a previous recipe [p], the first candidate that is
    the object [p] is taken out and nothing else: a recipe that is another
    object stays a candidate, whatever its attributes and wherever in the
    recursion the call is made.  On [revisit_catalog] the recipe of ["T"] is
    excluded in the call it makes for ["A"], is a candidate again in the call
    made below for ["B"], and is used there. *)
Theorem previous_recipe_exclusion :
  (forall catalog target previous_recipe,
      subsequence (recipes_to_target catalog target previous_recipe)
                  (get_valid_recipes catalog target)
      /\ subsequence (get_valid_recipes catalog target) catalog
      /\ (forall r, In r (get_valid_recipes catalog target)
                    <-> In r catalog /\ can_make r target = true)
      /\ (previous_recipe = None ->
          recipes_to_target catalog target previous_recipe
          = get_valid_recipes catalog target)
      /\ (forall p, previous_recipe = Some p ->
            (recipe_in (Some p) (get_valid_recipes catalog target) = false
             /\ recipes_to_target catalog target previous_recipe
                = get_valid_recipes catalog target)
            \/ (exists l1 p' l2,
                  get_valid_recipes catalog target = l1 ++ p' :: l2
                  /\ recipes_to_target catalog target previous_recipe = l1 ++ l2
                  /\ recipe_is p' p = true
                  /\ forall r, In r l1 -> recipe_is r p = false))
      /\ (forall p r, previous_recipe = Some p -> recipe_is r p = false ->
            In r catalog -> can_make r target = true ->
            In r (recipes_to_target catalog target previous_recipe)))
  /\ recipes_to_target revisit_catalog "A" (Some (new_Recipe 0 ["A"; "B"] "T"))
     = [new_Recipe 1 ["B"] "A"]
  /\ recipes_to_target revisit_catalog "B" (Some (new_Recipe 1 ["B"] "A"))
     = [new_Recipe 0 ["A"; "B"] "T"]
  /\ forall n,
      get_recipe_path ["C"] revisit_catalog (2 + n) "B" (Some (new_Recipe 1 ["B"] "A"))
      = Some (true, ["C = T"; "T -> A + B"])
      /\ get_recipe_path ["C"] revisit_catalog (3 + n) "A" (Some (new_Recipe 0 ["A"; "B"] "T"))
         = Some (true, ["C = T"; "T -> A + B"; "B = A"])
      /\ get_recipe_path ["C"] revisit_catalog (4 + n) "T" None
         = Some (true, ["C = T"; "T -> A + B"; "B = A";
                        "C = T"; "T -> A + B"; "A -> B"; "A + B = T"]).
Proof.
  split.
  - intros catalog target previous_recipe.
    assert (Hvalid : forall r, In r (get_valid_recipes catalog target)
                               <-> In r catalog /\ can_make r target = true).
    { intros r. unfold get_valid_recipes. apply filter_In. }
    split; [| split; [| split; [| split; [| split]]]].
    + unfold recipes_to_target. destruct previous_recipe as [p |].
      * destruct (recipe_in (Some p) _).
        -- apply subsequence_list_remove.
        -- apply subsequence_refl.
      * apply subsequence_refl.
    + apply subsequence_filter.
    + exact Hvalid.
    + intros ->. reflexivity.
    + intros p ->. unfold recipes_to_target.
      destruct (recipe_in (Some p) (get_valid_recipes catalog target)) eqn:Hin.
      * right. simpl in Hin.
        destruct (list_remove_split p _ Hin) as [l1 [p' [l2 [H1 [H2 [H3 H4]]]]]].
        exists l1, p', l2. auto.
      * left. auto.
    + intros p r -> Hr Hin Hcan. unfold recipes_to_target.
      assert (Hv : In r (get_valid_recipes catalog target)) by (apply Hvalid; auto).
      destruct (recipe_in (Some p) _); [| exact Hv].
      now apply list_remove_keeps.
  - split; [reflexivity |]. split; [reflexivity |].
    intros n. split; [| split]; apply get_recipe_path_add; reflexivity.
Qed.

(** A recipe with the attributes of the previous one, but another object,
    stays a candidate. *)
Lemma previous_recipe_exclusion_witness :
  In (new_Recipe 1 ["X"] "T")
     (recipes_to_target [new_Recipe 0 ["X"] "T"; new_Recipe 1 ["X"] "T"] "X"
        (Some (new_Recipe 0 ["X"] "T"))).
Proof.
  apply (proj2 (proj2 (proj2 (proj2 (proj2
    (proj1 previous_recipe_exclusion
       [new_Recipe 0 ["X"] "T"; new_Recipe 1 ["X"] "T"] "X"
       (Some (new_Recipe 0 ["X"] "T")))))))
    (new_Recipe 0 ["X"] "T") (new_Recipe 1 ["X"] "T") eq_refl eq_refl).
  - simpl. auto.
  - reflexivity.
Defined.

(** ** Directions, inputs and outputs *)

(** X1. A recipe that can make a target makes it in the required direction:
    the target is among the outputs of that direction and not among its
    inputs, and the direction is the combination exactly when the target is
    the result. *)
Theorem can_make_direction (self : Recipe) (target : string) :
  can_make self target = true ->
  In target (get_outputs self (get_required_recipe_direction self target))
  /\ ~ In target (get_inputs self (get_required_recipe_direction self target))
  /\ (get_required_recipe_direction self target = COMBINE <-> target = result self).
Proof.
  unfold can_make, get_required_recipe_direction.
  destruct (String.eqb_spec target (result self)) as [Heq | Hne];
    destruct (str_in target (reagents self)) eqn:Hin; simpl; try discriminate.
  - intros _. apply str_in_false in Hin. repeat split; auto.
  - destruct (no_split self); simpl; [discriminate |]. intros _.
    apply str_in_In in Hin. repeat split; auto.
    + intros [Heq | []]. now apply Hne.
    + discriminate.
    + intros Heq. contradiction.
Qed.

Lemma can_make_direction_witness :
  In "WV" (get_outputs (new_Recipe 5 ["DW"; "WV"] "US")
             (get_required_recipe_direction (new_Recipe 5 ["DW"; "WV"] "US") "WV"))
  /\ ~ In "WV" (get_inputs (new_Recipe 5 ["DW"; "WV"] "US")
                  (get_required_recipe_direction (new_Recipe 5 ["DW"; "WV"] "US") "WV"))
  /\ (get_required_recipe_direction (new_Recipe 5 ["DW"; "WV"] "US") "WV" = COMBINE
      <-> "WV" = result (new_Recipe 5 ["DW"; "WV"] "US")).
Proof.
  apply (can_make_direction (new_Recipe 5 ["DW"; "WV"] "US") "WV"). reflexivity.
Defined.

(** X2. A recipe with [no_split] set is a candidate for its result alone,
    and is then used as a combination. *)
Theorem no_split_only_combines (self : Recipe) (target : string) :
  no_split self = true ->
  can_make self target = true ->
  target = result self
  /\ get_required_recipe_direction self target = COMBINE.
Proof.
  intros Hns. unfold can_make, get_required_recipe_direction. rewrite Hns.
  destruct (String.eqb_spec target (result self)) as [Heq | Hne];
    destruct (str_in target (reagents self)); simpl; try discriminate.
  intros _. split; [assumption | reflexivity].
Qed.

Lemma no_split_only_combines_witness :
  "RF" = result (mkRecipe 20 ["FE"; "AH"] "RF" true)
  /\ get_required_recipe_direction (mkRecipe 20 ["FE"; "AH"] "RF" true) "RF" = COMBINE.
Proof.
  apply (no_split_only_combines (mkRecipe 20 ["FE"; "AH"] "RF" true) "RF");
    reflexivity.
Defined.

(** ** Rendering *)

Lemma string_length_append (s1 s2 : string) :
  String.length (s1 ++ s2)%string = String.length s1 + String.length s2.
Proof. induction s1 as [| c s1 IH]; simpl; [reflexivity | now rewrite IH]. Qed.

(** X3. The two renderings of a recipe are never the same line: the split
    is one character longer than the combination. *)
Theorem get_recipe_string_directions (self : Recipe) :
  String.length (get_recipe_string self SPLIT)
  = S (String.length (get_recipe_string self COMBINE))
  /\ get_recipe_string self SPLIT <> get_recipe_string self COMBINE.
Proof.
  assert (Hlen : String.length (get_recipe_string self SPLIT)
                 = S (String.length (get_recipe_string self COMBINE))).
  { unfold get_recipe_string. rewrite !string_length_append. simpl. lia. }
  split; [exact Hlen |]. intros Heq. rewrite Heq in Hlen. lia.
Qed.

(** ** Trivial recipes *)

Lemma is_trivial_inputs (base : list string) (self : Recipe) (direction : Direction) :
  is_trivial base self direction
  = forallb (fun x => str_in x base) (get_inputs self direction).
Proof.
  destruct direction; simpl; [reflexivity |]. now rewrite andb_true_r.
Qed.

(** X4. A recipe is trivial in a direction exactly when the loop over its
    inputs ends well without a single recursive call; it then adds no step,
    so the shortcut of the resolver answers what the loop would. *)
Theorem is_trivial_no_call (base : list string) (self : Recipe) (direction : Direction) :
  (is_trivial base self direction = true <->
     solve_reagents base (fun _ _ => None) self (get_inputs self direction) []
     = Some (true, []))
  /\ (is_trivial base self direction = true ->
      forall call acc,
        solve_reagents base call self (get_inputs self direction) acc = Some (true, acc)).
Proof.
  rewrite is_trivial_inputs.
  assert (Hall : forall inputs,
    forallb (fun x => str_in x base) inputs = true ->
    forall call acc, solve_reagents base call self inputs acc = Some (true, acc)).
  { induction inputs as [| x rest IH]; simpl; [reflexivity |].
    intros H call acc. apply andb_true_iff in H. destruct H as [Hx Hrest].
    rewrite Hx. simpl. now apply IH. }
  split; [split |].
  - intros H. now apply Hall.
  - generalize (@nil string) at 1 2.
    induction (get_inputs self direction) as [| x rest IH]; simpl; [reflexivity |].
    intros acc. destruct (str_in x base); simpl; [apply IH | discriminate].
  - apply Hall.
Qed.

Lemma is_trivial_no_call_witness :
  solve_reagents base_ingredients (get_recipe_path base_ingredients recipes 0)
    (new_Recipe 11 ["FP"; "IW"] "SI") ["FP"; "IW"] ["DW = WV"]
  = Some (true, ["DW = WV"]).
Proof.
  apply (proj2 (is_trivial_no_call base_ingredients (new_Recipe 11 ["FP"; "IW"] "SI")
                  COMBINE) eq_refl).
Defined.

(** ** What a found path is made of *)

Lemma list_remove_In (p r : Recipe) (l : list Recipe) :
  In r (list_remove p l) -> In r l.
Proof.
  induction l as [| x l IH]; simpl; [trivial |].
  destruct (recipe_is x p); simpl; intuition auto.
Qed.

(** Every candidate is a recipe of the catalog that can make the target. *)
Lemma recipes_to_target_In (catalog : list Recipe) target previous_recipe r :
  In r (recipes_to_target catalog target previous_recipe) ->
  In r catalog /\ can_make r target = true.
Proof.
  unfold recipes_to_target, get_valid_recipes. intros Hin.
  apply (filter_In (fun recipe => can_make recipe target)).
  destruct previous_recipe as [p |]; [| exact Hin].
  destruct (recipe_in (Some p) _); [| exact Hin].
  now apply list_remove_In in Hin.
Qed.

Lemma try_recipes_last (base : list string) call target candidates path :
  try_recipes base call target candidates = Some (true, path) ->
  exists recipe before,
    In recipe candidates
    /\ path = before ++ [get_recipe_string recipe
                           (get_required_recipe_direction recipe target)].
Proof.
  induction candidates as [| r rest IH]; simpl; [discriminate |].
  destruct (is_trivial base r _).
  - intros H. injection H as <-. exists r, []. auto.
  - destruct (solve_reagents base call r _ []) as [[ok acc] |]; [| discriminate].
    destruct ok.
    + intros H. injection H as <-. exists r, acc. auto.
    + intros H. destruct (IH H) as [recipe [before [Hin Hp]]].
      exists recipe, before. auto.
Qed.

(** X5. The last step of a found path is the rendering of a recipe of the
    catalog that can make the target, in the direction required for it. *)
Theorem get_recipe_path_last_step (base : list string) (catalog : list Recipe)
    (fuel : nat) (target : string) (previous_recipe : option Recipe)
    (path : list string) :
  get_recipe_path base catalog fuel target previous_recipe = Some (true, path) ->
  exists recipe before,
    In recipe catalog
    /\ can_make recipe target = true
    /\ path = before ++ [get_recipe_string recipe
                           (get_required_recipe_direction recipe target)].
Proof.
  destruct fuel as [| fuel]; simpl; [discriminate |].
  destruct (Nat.eqb _ 0); [discriminate |].
  intros H. apply try_recipes_last in H. destruct H as [recipe [before [Hin Hp]]].
  apply recipes_to_target_In in Hin. destruct Hin as [Hcat Hcan].
  exists recipe, before. auto.
Qed.

Lemma get_recipe_path_last_step_witness :
  exists recipe before,
    In recipe recipes
    /\ can_make recipe "PF" = true
    /\ ["CC = HC"; "HC -> EA + FS"; "EA -> PF + FT"]
       = before ++ [get_recipe_string recipe
                      (get_required_recipe_direction recipe "PF")].
Proof.
  apply (get_recipe_path_last_step base_ingredients recipes 5 "PF" None).
  vm_compute. reflexivity.
Defined.

(** ** Carrying out a found path *)

Lemma forallb_str_in_incl (h1 h2 xs : list string) :
  incl h1 h2 ->
  forallb (fun x => str_in x h1) xs = true ->
  forallb (fun x => str_in x h2) xs = true.
Proof.
  intros Hincl H. apply forallb_forall. intros x Hx.
  apply str_in_In, Hincl, str_in_In.
  now apply (proj1 (forallb_forall _ _) H).
Qed.

Lemma replay_app (have : list string) (s1 s2 : list Step) :
  replay have (s1 ++ s2)
  = match replay have s1 with
    | Some h => replay h s2
    | None => None
    end.
Proof.
  revert have. induction s1 as [| s rest IH]; intros have; simpl; [reflexivity |].
  destruct (forallb _ _); [apply IH | reflexivity].
Qed.

(** Nothing at hand is lost. *)
Lemma replay_incl (steps : list Step) (have h : list string) :
  replay have steps = Some h -> incl have h.
Proof.
  revert have. induction steps as [| s rest IH]; intros have; simpl.
  - intros H. injection H as <-. apply incl_refl.
  - destruct (forallb _ _); [| discriminate].
    intros H. apply IH in H. intros x Hx. apply H, in_or_app. now right.
Qed.

(** Steps that can be carried out can be carried out with more at hand. *)
Lemma replay_mono (steps : list Step) (h1 h2 r1 : list string) :
  incl h1 h2 ->
  replay h1 steps = Some r1 ->
  exists r2, replay h2 steps = Some r2 /\ incl r1 r2.
Proof.
  revert h1 h2. induction steps as [| s rest IH]; intros h1 h2 Hincl; simpl.
  - intros H. injection H as <-. now exists h2.
  - destruct (forallb (fun x => str_in x h1) _) eqn:Hin; [| discriminate].
    rewrite (forallb_str_in_incl h1 h2 _ Hincl Hin).
    apply IH. now apply incl_app_app; [apply incl_refl |].
Qed.

Lemma can_make_target_output (self : Recipe) (target : string) :
  can_make self target = true ->
  In target (get_outputs self (get_required_recipe_direction self target)).
Proof.
  unfold can_make, get_required_recipe_direction.
  destruct (String.eqb_spec target (result self)) as [Heq | Hne];
    destruct (str_in target (reagents self)) eqn:Hin; simpl; try discriminate.
  - intros _. now left.
  - intros _. now apply str_in_In.
Qed.

Lemma allowed_step_no_split (catalog : list Recipe) (s : Step) :
  allowed_step catalog s -> no_split (fst s) = true -> snd s = COMBINE.
Proof.
  intros [_ [target [Hcan ->]]] Hns.
  unfold can_make in Hcan. unfold get_required_recipe_direction. rewrite Hns in Hcan.
  destruct (String.eqb target (result (fst s)));
    destruct (str_in target (reagents (fst s))); simpl in Hcan;
    try discriminate. reflexivity.
Qed.

Section Soundness.

Variable base : list string.
Variable catalog : list Recipe.
Variable call : string -> option Recipe -> option Outcome.

Hypothesis call_crafts :
  forall x previous path, call x previous = Some (true, path) -> crafts base catalog x path.

(** The loop over the inputs keeps the steps so far feasible, and puts every
    input at hand. *)
Lemma solve_reagents_crafts (recipe : Recipe) (inputs : list string) :
  forall acc accsteps h out,
    acc = map render_step accsteps ->
    Forall (allowed_step catalog) accsteps ->
    replay base accsteps = Some h ->
    solve_reagents base call recipe inputs acc = Some (true, out) ->
    exists outsteps h',
      out = map render_step outsteps
      /\ Forall (allowed_step catalog) outsteps
      /\ replay base outsteps = Some h'
      /\ incl h h'
      /\ forall x, In x inputs -> In x h'.
Proof.
  induction inputs as [| x rest IH]; intros acc accsteps h out Hacc Hok Hrun; simpl.
  - intros H. injection H as <-. exists accsteps, h.
    repeat split; auto using incl_refl. intros x [].
  - destruct (str_in x base) eqn:Hx; simpl.
    + intros H. destruct (IH _ _ _ _ Hacc Hok Hrun H) as [os [h' [H1 [H2 [H3 [H4 H5]]]]]].
      exists os, h'. repeat split; auto.
      intros y [<- | Hy]; [| now apply H5].
      apply H4, (replay_incl _ _ _ Hrun). now apply str_in_In.
    + destruct (call x (Some recipe)) as [[solved p] |] eqn:Hc; [| discriminate].
      destruct solved; [| discriminate].
      destruct (call_crafts _ _ _ Hc) as [ps [hp [Hp [Hpok [Hprun Hxin]]]]].
      destruct (replay_mono ps base h hp (replay_incl _ _ _ Hrun) Hprun)
        as [r2 [Hr2 Hincl]].
      intros H.
      destruct (IH (acc ++ p) (accsteps ++ ps) r2 out) as [os [h' [H1 [H2 [H3 [H4 H5]]]]]].
      * now rewrite map_app, Hacc, Hp.
      * apply Forall_app. now split.
      * now rewrite replay_app, Hrun.
      * exact H.
      * exists os, h'. repeat split; auto.
        -- intros y Hy. apply H4, (replay_incl _ _ _ Hr2), Hy.
        -- intros y [<- | Hy]; [| now apply H5]. now apply H4, Hincl.
Qed.

Lemma try_recipes_crafts (target : string) (candidates : list Recipe) (path : list string) :
  (forall r, In r candidates -> In r catalog /\ can_make r target = true) ->
  try_recipes base call target candidates = Some (true, path) ->
  crafts base catalog target path.
Proof.
  induction candidates as [| r rest IH]; intros Hcands; simpl; [discriminate |].
  destruct (Hcands r (or_introl eq_refl)) as [Hcat Hcan].
  assert (Hstep : allowed_step catalog (r, get_required_recipe_direction r target)).
  { split; [exact Hcat |]. now exists target. }
  destruct (is_trivial base r _) eqn:Htriv.
  - intros H. injection H as <-.
    exists [(r, get_required_recipe_direction r target)].
    exists (get_outputs r (get_required_recipe_direction r target) ++ base).
    repeat split.
    + constructor; [exact Hstep | constructor].
    + simpl. rewrite is_trivial_inputs in Htriv. now rewrite Htriv.
    + apply in_or_app. left. now apply can_make_target_output.
  - destruct (solve_reagents base call r _ []) as [[ok acc] |] eqn:Hs; [| discriminate].
    destruct ok.
    + intros H. injection H as <-.
      destruct (solve_reagents_crafts r _ [] [] base acc eq_refl (Forall_nil _) eq_refl Hs)
        as [os [h' [H1 [H2 [H3 [_ H5]]]]]].
      exists (os ++ [(r, get_required_recipe_direction r target)]).
      exists (get_outputs r (get_required_recipe_direction r target) ++ h').
      repeat split.
      * now rewrite map_app, H1.
      * apply Forall_app. split; [exact H2 |]. constructor; [exact Hstep | constructor].
      * rewrite replay_app, H3. simpl.
        assert (Hall : forallb (fun x => str_in x h')
                         (get_inputs r (get_required_recipe_direction r target)) = true).
        { apply forallb_forall. intros x Hx. now apply str_in_In, H5. }
        now rewrite Hall.
      * apply in_or_app. left. now apply can_make_target_output.
    + apply IH. intros r' Hr'. apply Hcands. now right.
Qed.

End Soundness.

Lemma get_recipe_path_crafts (base : list string) (catalog : list Recipe) (fuel : nat) :
  forall target previous_recipe path,
    get_recipe_path base catalog fuel target previous_recipe = Some (true, path) ->
    crafts base catalog target path.
Proof.
  induction fuel as [| fuel IH]; intros target previous_recipe path; simpl;
    [discriminate |].
  destruct (Nat.eqb _ 0); [discriminate |].
  apply (try_recipes_crafts base catalog (get_recipe_path base catalog fuel) IH).
  intros r. apply recipes_to_target_In.
Qed.

(** X6. A found path can be carried out.  It is the rendering, step by step,
    of recipes of the catalog, each used in the direction required for an
    element it can make and none with [no_split] used as a split; carried out
    in order from the base elements alone, no step lacks an input, and the
    target is at hand at the end. *)
Theorem found_path_is_feasible (base : list string) (catalog : list Recipe)
    (fuel : nat) (target : string) (previous_recipe : option Recipe)
    (path : list string) :
  get_recipe_path base catalog fuel target previous_recipe = Some (true, path) ->
  exists steps have,
    path = map render_step steps
    /\ Forall (allowed_step catalog) steps
    /\ Forall (fun s => no_split (fst s) = true -> snd s = COMBINE) steps
    /\ replay base steps = Some have
    /\ In target have.
Proof.
  intros H. apply get_recipe_path_crafts in H.
  destruct H as [steps [have [Hp [Hok [Hrun Hin]]]]].
  exists steps, have. repeat split; auto.
  apply Forall_forall. intros s Hs.
  apply (allowed_step_no_split catalog).
  now apply (proj1 (Forall_forall _ _) Hok).
Qed.

Lemma found_path_is_feasible_witness :
  exists steps have,
    ["CC = HC"; "HC -> EA + FS"; "EA -> PF + FT"; "PF -> LT + PF"]
    = map render_step steps
    /\ Forall (allowed_step recipes) steps
    /\ Forall (fun s => no_split (fst s) = true -> snd s = COMBINE) steps
    /\ replay base_ingredients steps = Some have
    /\ In "LT" have.
Proof.
  apply (found_path_is_feasible base_ingredients recipes 6 "LT" None).
  vm_compute. reflexivity.
Defined.

(** ** Targets the catalog cannot serve *)

Lemma filter_none {A : Type} (f : A -> bool) (l : list A) :
  (forall x, In x l -> f x = false) -> filter f l = [].
Proof.
  induction l as [| x l IH]; simpl; [reflexivity |].
  intros H. rewrite (H x (or_introl eq_refl)). apply IH. intros y Hy. apply H. now right.
Qed.

Lemma get_valid_recipes_unknown (catalog : list Recipe) (target : string) :
  (forall r, In r catalog -> target <> result r /\ ~ In target (reagents r)) ->
  get_valid_recipes catalog target = [].
Proof.
  intros Hunknown. unfold get_valid_recipes. apply filter_none. intros r Hr.
  destruct (Hunknown r Hr) as [Hres Hrea]. unfold can_make.
  apply String.eqb_neq in Hres. apply str_in_false in Hrea.
  now rewrite Hres, Hrea.
Qed.



(** X8. A target whose only recipe is the previous one is not found, without
    a recursive call and whether or not that recipe is trivial. *)
Theorem only_previous_recipe_not_found (base : list string) (catalog : list Recipe)
    (fuel : nat) (target : string) (p r : Recipe) :
  get_valid_recipes catalog target = [r] ->
  recipe_is r p = true ->
  get_recipe_path base catalog (S fuel) target (Some p) = Some (false, []).
Proof.
  intros Hvalid Hsame. simpl. unfold recipes_to_target. rewrite Hvalid. simpl.
  rewrite Hsame. reflexivity.
Qed.

(** ["ES"] is made from ["GC"] and ["CS"], but not below its own recipe. *)
Lemma only_previous_recipe_not_found_witness :
  get_recipe_path base_ingredients recipes 4 "ES" None
    = Some (true, ["FR + EE = GC"; "DR = CS"; "GC + CS = ES"])
  /\ get_recipe_path base_ingredients recipes 1 "ES"
       (Some (new_Recipe 18 ["GC"; "CS"] "ES")) = Some (false, []).
Proof.
  split; [reflexivity |].
  apply (only_previous_recipe_not_found base_ingredients recipes 0 "ES"
           (new_Recipe 18 ["GC"; "CS"] "ES") (new_Recipe 18 ["GC"; "CS"] "ES"));
    reflexivity.
Defined.

(** X11. A recipe without reagents that is the first candidate for its
    result makes it in one step, rendered with an empty left-hand side. *)
Theorem empty_reagents_recipe (base : list string) (catalog : list Recipe)
    (fuel : nat) (r : Recipe) (rest : list Recipe) :
  reagents r = [] ->
  get_valid_recipes catalog (result r) = r :: rest ->
  get_recipe_path base catalog (S fuel) (result r) None
  = Some (true, [(" = " ++ result r)%string]).
Proof.
  intros Hnone Hvalid. simpl. unfold recipes_to_target. rewrite Hvalid. simpl.
  unfold get_required_recipe_direction, is_trivial, get_recipe_string.
  rewrite Hnone. reflexivity.
Qed.

Lemma empty_reagents_recipe_witness :
  get_recipe_path base_ingredients [new_Recipe 0 [] "X"] 1 "X" None
  = Some (true, [" = X"]).
Proof.
  apply (empty_reagents_recipe base_ingredients [new_Recipe 0 [] "X"] 0
           (new_Recipe 0 [] "X") []); reflexivity.
Defined.

(** ** The program's output *)

(** X10. [main] writes the usage line, and only it, unless it is given
    exactly one argument besides the program's name; the resolver is then not
    called.  With one argument it writes the found path, one step a line, or
    the failure line naming the target.  Whenever it returns it has written
    at least one line. *)
Theorem main_output (base : list string) (catalog : list Recipe) (argv : list string) :
  (length argv <> 2 ->
   forall fuel, main base catalog fuel argv = Some ["Usage: alchemy.py [target element]"])
  /\ (forall prog target fuel solved path,
        argv = [prog; target] ->
        get_recipe_path base catalog fuel target None = Some (solved, path) ->
        main base catalog fuel argv
        = Some (if solved then path else [("Failed to solve for " ++ target)%string]))
  /\ (forall fuel lines, main base catalog fuel argv = Some lines -> lines <> []).
Proof.
  split; [| split].
  - intros Hlen fuel. unfold main.
    apply Nat.eqb_neq in Hlen. now rewrite Hlen.
  - intros prog target fuel solved path -> Hres. unfold main, print_recipe_path.
    simpl. rewrite Hres. now destruct solved.
  - intros fuel lines. unfold main, print_recipe_path.
    destruct (negb (Nat.eqb (length argv) 2)).
    + intros H. injection H as <-. discriminate.
    + destruct (get_recipe_path base catalog fuel (nth 1 argv "") None)
        as [[solved path] |] eqn:Hres; [| discriminate].
      apply get_recipe_path_shape in Hres. destruct solved.
      * intros H. injection H as <-. exact Hres.
      * intros H. injection H as <-. discriminate.
Qed.

Lemma main_output_witness :
  main base_ingredients recipes 0 ["alchemy.py"]
    = Some ["Usage: alchemy.py [target element]"]
  /\ main base_ingredients recipes 6 ["alchemy.py"; "WE"]
     = Some ["DW = WV"; "DW + WV = US"; "KM + US = WE"].
Proof.
  split.
  - apply (proj1 (main_output base_ingredients recipes ["alchemy.py"])).
    simpl. discriminate.
  - apply (proj1 (proj2 (main_output base_ingredients recipes ["alchemy.py"; "WE"]))
             "alchemy.py" "WE" 6 true ["DW = WV"; "DW + WV = US"; "KM + US = WE"]);
      reflexivity.
Defined.

(** ** A catalog on which the resolver does not return *)

Section Cycle.

Variable base : list string.
Variables p z : string.

Hypothesis p_not_z : p <> z.
Hypothesis p_not_base : str_in p base = false.
Hypothesis z_not_base : str_in z base = false.

Lemma cycle_eqb : String.eqb p z = false /\ String.eqb z p = false.
Proof.
  split; apply String.eqb_neq; congruence.
Qed.

(** One call on the cycle, up to its recursive call. *)
Ltac cycle_step :=
  destruct cycle_eqb as [Hpz Hzp];
  simpl; unfold recipes_to_target, get_valid_recipes, can_make; simpl;
  rewrite !String.eqb_refl, ?Hpz, ?Hzp; simpl;
  unfold get_required_recipe_direction; simpl;
  rewrite ?String.eqb_refl, ?Hpz, ?Hzp; simpl;
  rewrite ?p_not_base, ?z_not_base; simpl.

(** Below either recipe, the call for [p] leads to a call for [z] below the
    other recipe, and the call for [z] to one for [p]: none returns. *)
Lemma cycle_calls (fuel : nat) :
  get_recipe_path base (cycle_catalog p z) fuel p (Some (new_Recipe 0 [p] z)) = None
  /\ get_recipe_path base (cycle_catalog p z) fuel z (Some (new_Recipe 1 [z] p)) = None
  /\ get_recipe_path base (cycle_catalog p z) fuel z (Some (new_Recipe 0 [p] z)) = None
  /\ get_recipe_path base (cycle_catalog p z) fuel p (Some (new_Recipe 1 [z] p)) = None.
Proof.
  induction fuel as [| fuel [IH1 [IH2 [IH3 IH4]]]]; [repeat split; reflexivity |].
  split; [| split; [| split]].
  - cycle_step. rewrite IH2. reflexivity.
  - cycle_step. rewrite IH1. reflexivity.
  - cycle_step. rewrite IH4. reflexivity.
  - cycle_step. rewrite IH3. reflexivity.
Qed.

Lemma cycle_top (fuel : nat) :
  get_recipe_path base (cycle_catalog p z) fuel z None = None
  /\ get_recipe_path base (cycle_catalog p z) fuel p None = None.
Proof.
  destruct fuel as [| fuel]; [split; reflexivity |].
  destruct (cycle_calls fuel) as [H1 [H2 [H3 H4]]].
  split.
  - cycle_step. rewrite H1. reflexivity.
  - cycle_step. rewrite H3. reflexivity.
Qed.

End Cycle.

(** X9. On a catalog of two recipes that need each other, neither element
    being a base element, the resolver does not return, however deep the
    stack: excluding the previous recipe does not break a cycle of two. *)
Theorem cycle_never_returns (base : list string) (p z : string) :
  p <> z ->
  str_in p base = false ->
  str_in z base = false ->
  forall fuel,
    get_recipe_path base (cycle_catalog p z) fuel z None = None
    /\ get_recipe_path base (cycle_catalog p z) fuel p None = None.
Proof.
  intros Hne Hp Hz fuel. now apply cycle_top.
Qed.

Lemma cycle_never_returns_witness :
  get_recipe_path base_ingredients (cycle_catalog "P" "Z") 1000 "Z" None = None
  /\ get_recipe_path base_ingredients (cycle_catalog "P" "Z") 1000 "P" None = None.
Proof.
  apply (cycle_never_returns base_ingredients "P" "Z");
    [discriminate | reflexivity | reflexivity].
Defined.

(** ** The program returns on its own catalog *)

(** On the program's catalog six frames are enough for every target. *)
Lemma recipes_resolve_returns (target : string) :
  exists o, forall n,
    get_recipe_path base_ingredients recipes (6 + n) target None = Some o.
Proof.
  destruct (in_dec string_dec target
              (flat_map (fun r => result r :: reagents r) recipes)) as [Hin | Hout].
  - assert (Hall : forallb (fun t =>
        match get_recipe_path base_ingredients recipes 6 t None with
        | Some _ => true
        | None => false
        end) (flat_map (fun r => result r :: reagents r) recipes) = true)
      by (vm_compute; reflexivity).
    apply (proj1 (forallb_forall _ _) Hall) in Hin.
    destruct (get_recipe_path base_ingredients recipes 6 target None) as [o |] eqn:Ho;
      [| discriminate].
    exists o. intros n. now apply get_recipe_path_add.
  - exists (false, []). intros n. apply (no_valid_recipes_fails _ _ (5 + n)).
    apply get_valid_recipes_unknown. intros r Hr. split.
    + intros Heq. apply Hout, in_flat_map. exists r. split; [exact Hr |]. now left.
    + intros Hrea. apply Hout, in_flat_map. exists r. split; [exact Hr |]. now right.
Qed.

(** X12. On the program's own catalog and base elements, [main] returns for
    every argument list, with at least one line written, as soon as the stack
    holds six calls of the resolver: the recursion never runs away. *)
Theorem main_returns_on_recipes (argv : list string) :
  exists lines,
    lines <> []
    /\ forall n, main base_ingredients recipes (6 + n) argv = Some lines.
Proof.
  unfold main. destruct (Nat.eqb (length argv) 2); cbn [negb].
  - destruct (recipes_resolve_returns (nth 1 argv "")) as [[solved path] Ho].
    exists (if solved then path
            else [("Failed to solve for " ++ nth 1 argv "")%string]).
    split.
    + specialize (Ho 0). apply get_recipe_path_shape in Ho.
      destruct solved; [exact Ho | discriminate].
    + intros n. unfold print_recipe_path. rewrite (Ho n). now destruct solved.
  - exists ["Usage: alchemy.py [target element]"]. split; [discriminate | reflexivity].
Qed.
